(** * Salesforce Deployment Tracker: a shallow embedding of
    [src/my-app/components/deployment-tracker.tsx].

    The React component keeps its state in hooks ([currentUser],
    [userStories], [errorMessage]) and talks to a Supabase table
    [user_stories].  We model the component state and the remote table as
    one record [State]; each handler becomes a function on [State].  The
    outcome of every remote call (transport failure or not) is an input,
    given by a [Faults] record, so that every path of the handlers can be
    reached.  Every remote call is also logged in [remoteCalls]. *)

From Stdlib Require Import String List Bool Arith Lia.
Import ListNotations.
Open Scope string_scope.
Open Scope list_scope.

(** ** Data model (lines 19-71)

    The keys of the four detail objects ([date], [apiName], ...) carry a
    prefix per record ([fc_], [lc_], [pc_], [pm_]), as Rocq projections share
    one name space. *)

Inductive ChangeType := Field | LWC | Profile | Permission.

Record FieldChange := {
  fc_date : string; fc_apiName : string; fc_label : string;
  fc_fieldType : string; fc_note : string }.

Record LWCChange := {
  lc_date : string; lc_componentName : string; lc_fileType : string;
  lc_code : option string; lc_note : string }.

Record ProfileChange := {
  pc_date : string; pc_profile : string; pc_note : string }.

Record Access := { read : bool; write : bool }.

Record PermissionChange := {
  pm_date : string; pm_permissionSet : string; pm_permission : string;
  pm_access : Access; pm_note : string }.

(** [Change['details']]: the union of the four detail records. *)
Inductive Details :=
| DField (d : FieldChange)
| DLWC (d : LWCChange)
| DProfile (d : ProfileChange)
| DPermission (d : PermissionChange).

Record Change := { ch_id : string; ch_type : ChangeType; details : Details }.

Record UserStory := {
  us_id : string; userId : string; number : string; title : string;
  description : string; us_date : string; changes : list Change }.

(** ** Remote table and component state *)

(** The remote calls the component issues, in the order it issues them. *)
Inductive RemoteCall :=
| RSelectStories (uid : string)
| RInsertStory
| RDeleteStory (id : string)
| RSelectChanges (storyId : string)
| RUpdateChanges (storyId : string) (cs : list Change).

Record State := {
  db : list UserStory;                 (* the [user_stories] table *)
  currentUser : option string;         (* the id of [currentUser] *)
  userStories : list UserStory;        (* the local story cache *)
  errorMessage : string;
  remoteCalls : list RemoteCall }.

(** Whether each remote call of one handler fails at the transport level. *)
Record Faults := { fetchFails : bool; updateFails : bool }.

Definition noFaults : Faults := {| fetchFails := false; updateFails := false |}.

Definition setErrorMessage (m : string) (s : State) : State :=
  {| db := db s; currentUser := currentUser s; userStories := userStories s;
     errorMessage := m; remoteCalls := remoteCalls s |}.

Definition setUserStories (l : list UserStory) (s : State) : State :=
  {| db := db s; currentUser := currentUser s; userStories := l;
     errorMessage := errorMessage s; remoteCalls := remoteCalls s |}.

Definition setDb (t : list UserStory) (s : State) : State :=
  {| db := t; currentUser := currentUser s; userStories := userStories s;
     errorMessage := errorMessage s; remoteCalls := remoteCalls s |}.

Definition setCurrentUser (u : option string) (s : State) : State :=
  {| db := db s; currentUser := u; userStories := userStories s;
     errorMessage := errorMessage s; remoteCalls := remoteCalls s |}.

Definition logCall (c : RemoteCall) (s : State) : State :=
  {| db := db s; currentUser := currentUser s; userStories := userStories s;
     errorMessage := errorMessage s; remoteCalls := remoteCalls s ++ [c] |}.

Definition withChanges (st : UserStory) (cs : list Change) : UserStory :=
  {| us_id := us_id st; userId := userId st; number := number st;
     title := title st; description := description st; us_date := us_date st;
     changes := cs |}.

(** [.from('user_stories').select('changes').eq('id', storyId).single()]:
    [.single()] is an error unless exactly one row matches. *)
Definition selectChangesSingle (t : list UserStory) (storyId : string)
  : option (list Change) :=
  match filter (fun st => String.eqb (us_id st) storyId) t with
  | [st] => Some (changes st)
  | _ => None
  end.

Definition selectChanges (fx : Faults) (t : list UserStory) (storyId : string)
  : option (list Change) :=
  if fetchFails fx then None else selectChangesSingle t storyId.

(** [.update({ changes }).eq('id', storyId)]: every matching row is
    overwritten; no matching row is not an error. *)
Definition updateChangesTable (t : list UserStory) (storyId : string)
  (cs : list Change) : list UserStory :=
  map (fun st => if String.eqb (us_id st) storyId then withChanges st cs else st) t.

Definition updateChanges (fx : Faults) (t : list UserStory) (storyId : string)
  (cs : list Change) : option (list UserStory) :=
  if updateFails fx then None else Some (updateChangesTable t storyId cs).

(** The local update [prevStories.map(story => story.id === storyId ?
    { ...story, changes: updatedChanges } : story)]. *)
Definition mapStoryChanges (l : list UserStory) (storyId : string)
  (cs : list Change) : list UserStory :=
  map (fun st => if String.eqb (us_id st) storyId then withChanges st cs else st) l.

(** ** [addChange] (lines 209-235); [now] is [Date.now().toString()]. *)
Definition addChange (fx : Faults) (now : string) (storyId : string)
  (changeType : ChangeType) (changeDetails : Details) (s : State) : State :=
  let s1 := logCall (RSelectChanges storyId) s in
  match selectChanges fx (db s) storyId with
  | None => setErrorMessage "Error fetching user story" s1
  | Some data =>
      let updatedChanges :=
        data ++ [{| ch_id := now; ch_type := changeType; details := changeDetails |}] in
      let s2 := logCall (RUpdateChanges storyId updatedChanges) s1 in
      match updateChanges fx (db s) storyId updatedChanges with
      | None => setErrorMessage "Error adding change" s2
      | Some t' =>
          setUserStories (mapStoryChanges (userStories s) storyId updatedChanges)
            (setDb t' s2)
      end
  end.

(** ** [removeChange] (lines 237-263) *)
Definition removeChange (fx : Faults) (storyId changeId : string) (s : State)
  : State :=
  let s1 := logCall (RSelectChanges storyId) s in
  match selectChanges fx (db s) storyId with
  | None => setErrorMessage "Error fetching user story" s1
  | Some data =>
      let updatedChanges :=
        filter (fun change => negb (String.eqb (ch_id change) changeId)) data in
      let s2 := logCall (RUpdateChanges storyId updatedChanges) s1 in
      match updateChanges fx (db s) storyId updatedChanges with
      | None => setErrorMessage "Error removing change" s2
      | Some t' =>
          setUserStories (mapStoryChanges (userStories s) storyId updatedChanges)
            (setDb t' s2)
      end
  end.

(** ** [ChangeForm] (lines 460-534)

    The form keeps one [useState] hook per input.  The text inputs are
    indexed by [TextInput]; the two checkboxes and the type selector keep
    their own fields. *)

Inductive TextInput :=
| IDate | IFieldApiName | IFieldLabel | IFieldType | ILwcComponentName
| ILwcFileType | ILwcCode | IProfile | IPermissionSet | IPermission | INote.

Definition TextInput_eqb (a b : TextInput) : bool :=
  match a, b with
  | IDate, IDate | IFieldApiName, IFieldApiName | IFieldLabel, IFieldLabel
  | IFieldType, IFieldType | ILwcComponentName, ILwcComponentName
  | ILwcFileType, ILwcFileType | ILwcCode, ILwcCode | IProfile, IProfile
  | IPermissionSet, IPermissionSet | IPermission, IPermission
  | INote, INote => true
  | _, _ => false
  end.

Record Form := {
  changeType : ChangeType;
  text : TextInput -> string;
  readAccess : bool;
  writeAccess : bool }.

Definition date f := text f IDate.
Definition fieldApiName f := text f IFieldApiName.
Definition fieldLabel f := text f IFieldLabel.
Definition fieldType f := text f IFieldType.
Definition lwcComponentName f := text f ILwcComponentName.
Definition lwcFileType f := text f ILwcFileType.
Definition lwcCode f := text f ILwcCode.
Definition profile f := text f IProfile.
Definition permissionSet f := text f IPermissionSet.
Definition permission f := text f IPermission.
Definition note f := text f INote.

(** The initial values of the hooks: [useState('Field')], [useState('')]
    for every text input, [useState(false)] for both checkboxes. *)
Definition initForm : Form :=
  {| changeType := Field; text := fun _ => ""; readAccess := false;
     writeAccess := false |}.

(** [!x] on a string: the empty string is falsy. *)
Definition falsy (x : string) : bool := String.eqb x "".

(** The checks and the [switch] of [handleAddChange] (lines 477-516): either
    the message passed to [setErrorMessage] or the arguments passed to
    [addChange]. *)
Definition validateChangeForm (f : Form) : string + (ChangeType * Details) :=
  if falsy (date f) then inl "Please select a date for the change." else
  match changeType f with
  | Field =>
      if falsy (fieldApiName f) || falsy (fieldLabel f) || falsy (fieldType f)
      then inl "Please fill in all required fields for Field Change."
      else inr (Field, DField {| fc_date := date f; fc_apiName := fieldApiName f;
                                 fc_label := fieldLabel f; fc_fieldType := fieldType f;
                                 fc_note := note f |})
  | LWC =>
      if falsy (lwcComponentName f) || falsy (lwcFileType f)
      then inl "Please fill in all required fields for LWC Change."
      else inr (LWC, DLWC {| lc_date := date f; lc_componentName := lwcComponentName f;
                             lc_fileType := lwcFileType f; lc_code := Some (lwcCode f);
                             lc_note := note f |})
  | Profile =>
      if falsy (profile f)
      then inl "Please enter a profile name."
      else inr (Profile, DProfile {| pc_date := date f; pc_profile := profile f;
                                     pc_note := note f |})
  | Permission =>
      if falsy (permissionSet f) || falsy (permission f)
      then inl "Please fill in all required fields for Permission Change."
      else inr (Permission,
                DPermission {| pm_date := date f; pm_permissionSet := permissionSet f;
                               pm_permission := permission f;
                               pm_access := {| read := readAccess f; write := writeAccess f |};
                               pm_note := note f |})
  end.

(** "Reset form fields" (lines 520-533); the selected type is kept. *)
Definition resetForm (f : Form) : Form :=
  {| changeType := changeType f; text := fun _ => ""; readAccess := false;
     writeAccess := false |}.

(** [handleAddChange]: returns the new form state and the new component
    state. *)
Definition handleAddChange (fx : Faults) (now storyId : string) (f : Form)
  (s : State) : Form * State :=
  match validateChangeForm f with
  | inl msg => (f, setErrorMessage msg s)
  | inr (ct, d) => (resetForm f, addChange fx now storyId ct d s)
  end.

(** The user's interactions with the form: the [onChange] handlers of its
    inputs and the submit button. *)
Inductive FormEvent :=
| SetChangeType (t : ChangeType)
| SetText (i : TextInput) (v : string)
| SetReadAccess (b : bool)
| SetWriteAccess (b : bool)
| SubmitForm.

Definition formStep (f : Form) (e : FormEvent) : Form :=
  match e with
  | SetChangeType t =>
      {| changeType := t; text := text f; readAccess := readAccess f;
         writeAccess := writeAccess f |}
  | SetText i v =>
      {| changeType := changeType f;
         text := fun j => if TextInput_eqb i j then v else text f j;
         readAccess := readAccess f; writeAccess := writeAccess f |}
  | SetReadAccess b =>
      {| changeType := changeType f; text := text f; readAccess := b;
         writeAccess := writeAccess f |}
  | SetWriteAccess b =>
      {| changeType := changeType f; text := text f; readAccess := readAccess f;
         writeAccess := b |}
  | SubmitForm =>
      match validateChangeForm f with
      | inl _ => f
      | inr _ => resetForm f
      end
  end.

Definition runForm (f : Form) (es : list FormEvent) : Form := fold_left formStep es f.

(** The caller never touches a checkbox. *)
Definition touchesAccess (e : FormEvent) : bool :=
  match e with
  | SetReadAccess _ | SetWriteAccess _ => true
  | _ => false
  end.

(** ** Story handlers of the component *)

(** [String.prototype.trim] on strings of code units below 256: the
    characters it strips there are the white space TAB, VT, FF, SPACE and
    NO-BREAK SPACE (U+00A0) and the line terminators LF and CR. *)
Definition isWhitespace (c : Ascii.ascii) : bool :=
  match Ascii.nat_of_ascii c with
  | 9 | 10 | 11 | 12 | 13 | 32 | 160 => true
  | _ => false
  end.

Fixpoint dropWhitespace (l : list Ascii.ascii) : list Ascii.ascii :=
  match l with
  | [] => []
  | c :: l' => if isWhitespace c then dropWhitespace l' else l
  end.

Definition trim (x : string) : string :=
  string_of_list_ascii
    (rev (dropWhitespace (rev (dropWhitespace (list_ascii_of_string x))))).

(** [fetchUserStories] (lines 109-120): [select('*').eq('userId', id)];
    on error only [console.error], the cache is kept. *)
Definition fetchUserStories (fails : bool) (s : State) : State :=
  match currentUser s with
  | None => s
  | Some uid =>
      let s1 := logCall (RSelectStories uid) s in
      if fails then s1
      else setUserStories (filter (fun st => String.eqb (userId st) uid) (db s)) s1
  end.

(** [addUserStory] (lines 162-193); [newId] is the id the table assigns to
    the inserted row, returned by [.insert([newStory]).select()]. *)
Definition addUserStory (fails : bool) (newId : string)
  (newStoryNumber newStoryTitle newStoryDescription newStoryDate : string)
  (s : State) : State :=
  match currentUser s with
  | None => s
  | Some uid =>
      if String.eqb (trim newStoryTitle) "" || String.eqb newStoryDate ""
         || String.eqb (trim newStoryNumber) ""
      then setErrorMessage "Please fill in all required fields for the new user story." s
      else
        let row := {| us_id := newId; userId := uid; number := newStoryNumber;
                      title := newStoryTitle; description := newStoryDescription;
                      us_date := newStoryDate; changes := [] |} in
        let s1 := logCall RInsertStory s in
        if fails then setErrorMessage "Error adding user story" s1
        else setUserStories (userStories s ++ [row]) (setDb (db s ++ [row]) s1)
  end.

(** [removeUserStory] (lines 195-207): [.delete().eq('id', id)]; a delete
    matching no row is not an error. *)
Definition removeUserStory (fails : bool) (id : string) (s : State) : State :=
  let s1 := logCall (RDeleteStory id) s in
  if fails then setErrorMessage "Error removing user story" s1
  else
    setUserStories (filter (fun st => negb (String.eqb (us_id st) id)) (userStories s))
      (setDb (filter (fun st => negb (String.eqb (us_id st) id)) (db s)) s1).

(** ** Session: the events the component reacts to

    Each handler runs to completion here, its request answered before the
    next event; [SessionEvent] below lets requests return later. *)
Inductive Event :=
| AuthStateChange (u : option string)   (* [checkUser], [onAuthStateChange] *)
| FetchUserStories (fails : bool)       (* the effect of lines 122-126 *)
| AddUserStory (fails : bool) (newId number title description date : string)
| RemoveUserStory (fails : bool) (id : string)
| SubmitChangeForm (fx : Faults) (now storyId : string) (f : Form)
| RemoveChange (fx : Faults) (storyId changeId : string).

Definition step (s : State) (e : Event) : State :=
  match e with
  | AuthStateChange u => setCurrentUser u s
  | FetchUserStories b => fetchUserStories b s
  | AddUserStory b i n t d dt => addUserStory b i n t d dt s
  | RemoveUserStory b i => removeUserStory b i s
  | SubmitChangeForm fx now sid f => snd (handleAddChange fx now sid f s)
  | RemoveChange fx sid cid => removeChange fx sid cid s
  end.

Definition run (s : State) (es : list Event) : State := fold_left step es s.

(** The component mounts with no user and an empty cache. *)
Definition initState (t : list UserStory) : State :=
  {| db := t; currentUser := None; userStories := []; errorMessage := "";
     remoteCalls := [] |}.

(** ** Requests in flight

    [fetchUserStories] and [addUserStory] read [currentUser] when they are
    called, then [await] the table, then update the cache without reading
    [currentUser] again.  A [Request] is one such call suspended at its
    [await], with the user id it read.  [fetchUserStories] and
    [addUserStory] above are a call whose response comes back before any
    other event. *)
Inductive Request :=
| FetchReq (uid : string)         (* [fetchUserStories], lines 111-114 *)
| InsertReq (row : UserStory).    (* [addUserStory], lines 180-183 *)


(** [fetchUserStories] up to its [await]. *)
Definition fetchUserStoriesCall (s : State) : State * list Request :=
  match currentUser s with
  | None => (s, [])
  | Some uid => (logCall (RSelectStories uid) s, [FetchReq uid])
  end.

(** [addUserStory] up to its [await]. *)
Definition addUserStoryCall (newId : string)
  (newStoryNumber newStoryTitle newStoryDescription newStoryDate : string)
  (s : State) : State * list Request :=
  match currentUser s with
  | None => (s, [])
  | Some uid =>
      if String.eqb (trim newStoryTitle) "" || String.eqb newStoryDate ""
         || String.eqb (trim newStoryNumber) ""
      then (setErrorMessage "Please fill in all required fields for the new user story." s, [])
      else
        let row := {| us_id := newId; userId := uid; number := newStoryNumber;
                      title := newStoryTitle; description := newStoryDescription;
                      us_date := newStoryDate; changes := [] |} in
        (logCall RInsertStory s, [InsertReq row])
  end.

(** The rest of the call once its request returns: lines 115-119 for a
    fetch, lines 185-192 for an insert. *)
Definition resolveRequest (fails : bool) (r : Request) (s : State) : State :=
  match r with
  | FetchReq uid =>
      if fails then s
      else setUserStories (filter (fun st => String.eqb (userId st) uid) (db s)) s
  | InsertReq row =>
      if fails then setErrorMessage "Error adding user story" s
      else setUserStories (userStories s ++ [row]) (setDb (db s ++ [row]) s)
  end.









(** ** Two [addChange] calls in flight

    [addChange] suspends at its two [await]s.  [AddChangeTask] is the point
    at which one call is suspended; [addChangeResume] runs it up to its next
    [await] (or to its end). *)
Inductive AddChangeTask :=
| AwaitSelect
| AwaitUpdate (updatedChanges : list Change)
| Finished.

Definition addChangeResume (fx : Faults) (now storyId : string)
  (changeType : ChangeType) (changeDetails : Details) (k : AddChangeTask)
  (s : State) : AddChangeTask * State :=
  match k with
  | AwaitSelect =>
      let s1 := logCall (RSelectChanges storyId) s in
      match selectChanges fx (db s) storyId with
      | None => (Finished, setErrorMessage "Error fetching user story" s1)
      | Some data =>
          (AwaitUpdate
             (data ++ [{| ch_id := now; ch_type := changeType; details := changeDetails |}]),
           s1)
      end
  | AwaitUpdate updatedChanges =>
      let s2 := logCall (RUpdateChanges storyId updatedChanges) s in
      match updateChanges fx (db s) storyId updatedChanges with
      | None => (Finished, setErrorMessage "Error adding change" s2)
      | Some t' =>
          (Finished,
           setUserStories (mapStoryChanges (userStories s) storyId updatedChanges)
             (setDb t' s2))
      end
  | Finished => (Finished, s)
  end.

(** One [addChange] call: its parameters and where it is suspended. *)
Record AddChangeCall := {
  callNow : string; callType : ChangeType; callDetails : Details;
  callTask : AddChangeTask }.

Definition resumeCall (fx : Faults) (storyId : string) (c : AddChangeCall)
  (s : State) : AddChangeCall * State :=
  let '(k, s') := addChangeResume fx (callNow c) storyId (callType c)
                    (callDetails c) (callTask c) s in
  ({| callNow := callNow c; callType := callType c; callDetails := callDetails c;
      callTask := k |}, s').

(** An interleaving of two calls on the same story: [true] resumes the
    first call, [false] the second. *)
Fixpoint interleave (fx : Faults) (storyId : string) (sched : list bool)
  (c1 c2 : AddChangeCall) (s : State) : State :=
  match sched with
  | [] => s
  | true :: sched' =>
      let '(c1', s') := resumeCall fx storyId c1 s in
      interleave fx storyId sched' c1' c2 s'
  | false :: sched' =>
      let '(c2', s') := resumeCall fx storyId c2 s in
      interleave fx storyId sched' c1 c2' s'
  end.

(** ** Query view (lines 273-282, 442-454) *)

(** [String.prototype.includes]: [q] occurs in [x] at some position. *)
Fixpoint includes (x q : string) : bool :=
  if String.prefix q x then true
  else match x with
       | EmptyString => false
       | String _ x' => includes x' q
       end.

Definition filteredStories (userStories : list UserStory) (filterNumber : string)
  : list UserStory :=
  filter (fun story =>
            let matchesNumber :=
              if negb (falsy filterNumber) then includes (number story) filterNumber
              else true in
            matchesNumber) userStories.

(** [Array.prototype.slice] with non-negative bounds. *)
Definition slice {A} (l : list A) (start end_ : nat) : list A :=
  let from := Nat.min start (length l) in
  let to := Nat.min end_ (length l) in
  firstn (to - from) (skipn from l).

Definition storiesPerPage : nat := 10.

(** [currentStories] for a page size [perPage]; the component uses
    [storiesPerPage]. *)
Definition currentStories (filtered : list UserStory) (currentPage perPage : nat)
  : list UserStory :=
  let indexOfLastStory := currentPage * perPage in
  let indexOfFirstStory := indexOfLastStory - perPage in
  slice filtered indexOfFirstStory indexOfLastStory.

(** [Math.ceil(n / perPage)], the number of page buttons (line 444). *)
Definition pageCount (n perPage : nat) : nat :=
  n / perPage + (if Nat.eqb (n mod perPage) 0 then 0 else 1).


(** A call of [addChange] that has not run yet. *)
Definition startCall (now : string) (changeType : ChangeType)
  (changeDetails : Details) : AddChangeCall :=
  {| callNow := now; callType := changeType; callDetails := changeDetails;
     callTask := AwaitSelect |}.

(** ** Further parts of the component *)

(** [toggleStoryExpansion] (lines 265-271) on the list of expanded ids. *)
Definition toggleStoryExpansion (prev : list string) (storyId : string) : list string :=
  if existsb (String.eqb storyId) prev
  then filter (fun id => negb (String.eqb id storyId)) prev
  else prev ++ [storyId].

(** The update of [expandedStories] by [removeUserStory] (line 205). *)
Definition collapseRemovedStory (prev : list string) (id : string) : list string :=
  filter (fun storyId => negb (String.eqb storyId id)) prev.

(** The page numbers of the pagination buttons (lines 442-454): shown only
    when the filtered list is longer than one page, numbered [i + 1]. *)
Definition pageButtons (n perPage : nat) : list nat :=
  if Nat.ltb perPage n then seq 1 (pageCount n perPage) else [].

(** A change whose [type] tag names the variant of its [details]. *)
Definition detailsMatchType (c : Change) : bool :=
  match ch_type c, details c with
  | Field, DField _ | LWC, DLWC _ | Profile, DProfile _
  | Permission, DPermission _ => true
  | _, _ => false
  end.

Definition wellTagged (l : list UserStory) : Prop :=
  forall st c, In st l -> In c (changes st) -> detailsMatchType c = true.


(** ** Sample data for the concrete instances below *)

Definition sampleStory (id num : string) : UserStory :=
  {| us_id := id; userId := "u1"; number := num; title := "t";
     description := ""; us_date := "2024-01-01"; changes := [] |}.

Definition sampleStories : list UserStory :=
  map (fun k => sampleStory k (String.append "US-" k))
      ["1"; "2"; "3"; "4"; "5"; "6"; "7"; "8"; "9"; "10"; "11"; "12"].

Definition sampleChange (id : string) : Change :=
  {| ch_id := id; ch_type := Profile;
     details := DProfile {| pc_date := "2024-01-02"; pc_profile := "Admin";
                            pc_note := "" |} |}.

Definition storyWithChanges (id : string) (cs : list Change) : UserStory :=
  withChanges (sampleStory id "US-1") cs.

Definition ownedStory (id owner : string) : UserStory :=
  {| us_id := id; userId := owner; number := "US-1"; title := "t";
     description := ""; us_date := "2024-01-01"; changes := [] |}.

(** The Permission form with a date and a permission set but no
    permission. *)
Definition permissionFormWithoutPermission : Form :=
  runForm initForm [SetChangeType Permission; SetText IDate "2024-01-02";
                    SetText IPermissionSet "Sales_Ops"].

(** The same form completed with a permission, checkboxes untouched. *)
Definition permissionEvents : list FormEvent :=
  [SetChangeType Permission; SetText IDate "2024-01-02";
   SetText IPermissionSet "Sales_Ops"; SetText IPermission "Account.Edit"].

(** * Properties *)

(** ** Query view *)

Lemma slice_from_page (A : Type) (l : list A) (a n : nat) :
  slice l a (a + n) = firstn n (skipn a l).
Proof.
  unfold slice.
  destruct (Nat.le_gt_cases (length l) a) as [Hle | Hlt].
  - rewrite !Nat.min_r by lia. rewrite Nat.sub_diag.
    rewrite (@skipn_all2 _ (length l) l), (@skipn_all2 _ a l) by lia.
    now rewrite !firstn_nil.
  - rewrite (Nat.min_l a) by lia.
    destruct (Nat.le_gt_cases (a + n) (length l)) as [Hn | Hn].
    + rewrite Nat.min_l by lia. f_equal. lia.
    + rewrite Nat.min_r by lia.
      rewrite firstn_all2 by (rewrite length_skipn; lia).
      rewrite firstn_all2 by (rewrite length_skipn; lia). reflexivity.
Qed.

Lemma currentStories_slice (l : list UserStory) (p perPage : nat) :
  1 <= p ->
  currentStories l p perPage = firstn perPage (skipn ((p - 1) * perPage) l).
Proof.
  intros Hp. unfold currentStories.
  replace (p * perPage - perPage) with ((p - 1) * perPage) by nia.
  replace (p * perPage) with ((p - 1) * perPage + perPage) by nia.
  apply slice_from_page.
Qed.

Lemma pageCount_ceil (n perPage : nat) :
  0 < perPage ->
  n <= pageCount n perPage * perPage /\
  (forall k, n <= k * perPage -> pageCount n perPage <= k).
Proof.
  intros Hps. unfold pageCount.
  pose proof (Nat.div_mod_eq n perPage) as Hdm.
  pose proof (Nat.mod_upper_bound n perPage ltac:(lia)) as Hmod.
  destruct (Nat.eqb_spec (n mod perPage) 0) as [H0 | H0].
  - split; [nia |]. intros k Hk.
    destruct (Nat.le_gt_cases (n / perPage) k) as [? | Hgt]; [lia | nia].
  - split; [nia |]. intros k Hk.
    destruct (Nat.le_gt_cases (n / perPage + 1) k) as [? | Hgt]; [lia |].
    assert (k <= n / perPage) by lia. nia.
Qed.

(** [String.prefix q x] holds exactly when [x] starts with [q]. *)
Lemma prefix_iff (q x : string) :
  String.prefix q x = true <-> exists suf, x = String.append q suf.
Proof.
  revert x; induction q as [| a q IH]; intros x.
  - split; [intros _; now exists x | now destruct x].
  - destruct x as [| b x]; simpl.
    + split; [discriminate | intros [suf Hs]; discriminate].
    + destruct (Ascii.ascii_dec a b) as [-> | Hab].
      * rewrite IH. split; intros [suf Hs]; exists suf; congruence.
      * split; [discriminate | intros [suf Hs]; congruence].
Qed.

Lemma includes_unfold (x q : string) :
  includes x q =
  if String.prefix q x then true
  else match x with EmptyString => false | String _ x' => includes x' q end.
Proof. destruct x; reflexivity. Qed.

(** [includes x q] holds exactly when [q] is a substring of [x]. *)
Lemma includes_iff (x q : string) :
  includes x q = true <->
  exists pre suf, x = String.append pre (String.append q suf).
Proof.
  induction x as [| a x IH]; rewrite includes_unfold.
  - destruct (String.prefix q "") eqn:Hp.
    + split; [intros _ | reflexivity].
      apply prefix_iff in Hp as [suf Hs]. exists "", suf. exact Hs.
    + split; [discriminate |]. intros [pre [suf Hs]].
      destruct pre; [| discriminate]. simpl in Hs.
      assert (String.prefix q "" = true) by (apply prefix_iff; now exists suf).
      congruence.
  - destruct (String.prefix q (String a x)) eqn:Hp.
    + split; [intros _ | reflexivity].
      apply prefix_iff in Hp as [suf Hs]. exists "", suf. exact Hs.
    + rewrite IH. split.
      * intros [pre [suf Hs]]. exists (String a pre), suf. simpl. congruence.
      * intros [pre [suf Hs]]. destruct pre as [| b pre].
        -- simpl in Hs.
           assert (String.prefix q (String a x) = true)
             by (apply prefix_iff; now exists suf).
           congruence.
        -- simpl in Hs. injection Hs as _ Hs. now exists pre, suf.
Qed.

(** The predicate of [filteredStories], with an empty query keeping
    everything. *)
Lemma matchesNumber_iff (q : string) (st : UserStory) :
  (if negb (falsy q) then includes (number st) q else true) = true <->
  exists pre suf, number st = String.append pre (String.append q suf).
Proof.
  unfold falsy. destruct (String.eqb_spec q "") as [-> | Hq]; simpl.
  - split; [intros _ | reflexivity]. exists (number st), "".
    clear. induction (number st) as [| a x IH]; simpl; congruence.
  - apply includes_iff.
Qed.

(** C9: for a page size [perPage > 0] and a 1-based page [p], the stories
    shown are exactly those at indices [[(p-1)*perPage, p*perPage)] of the
    filtered list; a page past the last one is empty; the number of pages
    [pageCount n perPage] is [ceil(n / perPage)], the least [k] with
    [n <= k * perPage]. *)
Theorem currentStories_is_page_slice (l : list UserStory) (perPage p : nat)
  (Hps : 0 < perPage) (Hp : 1 <= p) :
  currentStories l p perPage = firstn perPage (skipn ((p - 1) * perPage) l) /\
  (forall i, nth_error (currentStories l p perPage) i =
             if Nat.ltb i perPage then nth_error l ((p - 1) * perPage + i) else None) /\
  (pageCount (length l) perPage < p -> currentStories l p perPage = []) /\
  (forall n, n <= pageCount n perPage * perPage /\
             (forall k, n <= k * perPage -> pageCount n perPage <= k)).
Proof.
  rewrite currentStories_slice by exact Hp.
  split; [reflexivity |]. split; [| split].
  - intros i. rewrite nth_error_firstn, nth_error_skipn. reflexivity.
  - intros Hbeyond.
    destruct (pageCount_ceil (length l) perPage Hps) as [Hn _].
    rewrite skipn_all2 by nia. apply firstn_nil.
  - intros n. now apply pageCount_ceil.
Qed.

Lemma currentStories_is_page_slice_witness :
  currentStories sampleStories 2 storiesPerPage =
    [sampleStory "11" "US-11"; sampleStory "12" "US-12"] /\
  pageCount (length sampleStories) storiesPerPage = 2 /\
  currentStories sampleStories 3 storiesPerPage = [] /\
  currentStories sampleStories 2 storiesPerPage =
    firstn storiesPerPage (skipn ((2 - 1) * storiesPerPage) sampleStories).
Proof.
  split; [reflexivity |]. split; [reflexivity |].
  destruct (currentStories_is_page_slice sampleStories storiesPerPage 2
              ltac:(unfold storiesPerPage; lia) ltac:(lia)) as [H _].
  split; [reflexivity | exact H].
Defined.

(** C10: [filteredStories l q] keeps, in their input order, exactly the
    stories whose [number] contains [q] as a (case-sensitive) substring;
    the empty query keeps every story; filtering twice with the same query
    is filtering once. *)
Theorem filteredStories_substring_filter :
  (forall q, filteredStories [] q = []) /\
  (forall q st l,
     (exists pre suf, number st = String.append pre (String.append q suf)) ->
     filteredStories (st :: l) q = st :: filteredStories l q) /\
  (forall q st l,
     ~ (exists pre suf, number st = String.append pre (String.append q suf)) ->
     filteredStories (st :: l) q = filteredStories l q) /\
  (forall l, filteredStories l "" = l) /\
  (forall l q, filteredStories (filteredStories l q) q = filteredStories l q).
Proof.
  split; [reflexivity |]. split; [| split; [| split]].
  - intros q st l Hin. unfold filteredStories. simpl.
    apply matchesNumber_iff in Hin. now rewrite Hin.
  - intros q st l Hout. unfold filteredStories. simpl.
    destruct (if negb (falsy q) then includes (number st) q else true) eqn:Hm.
    + exfalso. apply Hout, matchesNumber_iff, Hm.
    + reflexivity.
  - intros l. unfold filteredStories. simpl.
    induction l as [| st l IH]; simpl; [reflexivity | now rewrite IH].
  - intros l q. unfold filteredStories.
    induction l as [| st l IH]; simpl; [reflexivity |].
    destruct (if negb (falsy q) then includes (number st) q else true) eqn:Hm.
    + simpl. now rewrite Hm, IH.
    + exact IH.
Qed.

(** ** Change log: [addChange] and [removeChange] *)

Lemma filter_updateChangesTable (t : list UserStory) (storyId : string)
  (cs : list Change) :
  filter (fun st => String.eqb (us_id st) storyId) (updateChangesTable t storyId cs) =
  map (fun st => withChanges st cs) (filter (fun st => String.eqb (us_id st) storyId) t).
Proof.
  induction t as [| st t IH]; simpl; [reflexivity |].
  destruct (String.eqb (us_id st) storyId) eqn:E; simpl.
  - rewrite E. now f_equal.
  - rewrite E. exact IH.
Qed.

(** After the write, the read side of the next read-modify-write sees the
    written list. *)
Lemma selectChangesSingle_update (t : list UserStory) (storyId : string)
  (cur cs : list Change) :
  selectChangesSingle t storyId = Some cur ->
  selectChangesSingle (updateChangesTable t storyId cs) storyId = Some cs.
Proof.
  unfold selectChangesSingle. rewrite filter_updateChangesTable.
  destruct (filter _ t) as [| st [| st' l]]; simpl; congruence.
Qed.

Lemma mapStoryChanges_twice (l : list UserStory) (storyId : string)
  (a b : list Change) :
  mapStoryChanges (mapStoryChanges l storyId a) storyId b = mapStoryChanges l storyId b.
Proof.
  unfold mapStoryChanges. rewrite map_map. apply map_ext. intros st.
  destruct (String.eqb (us_id st) storyId) eqn:E; simpl; rewrite ?E; reflexivity.
Qed.


(** C1: [handleAddChange] validates the form first.  On a failed check it
    only shows the message: no remote call, nothing stored.  On success it
    reads the story's current changes [cur] with one select, appends one new
    record [{id: now, type, details}] at the end of [cur], writes that list
    back with one update, and hands the same list to the component, which
    installs it as the story's changes in the local cache. *)
Theorem handleAddChange_validates_then_appends (fx : Faults)
  (now storyId : string) (f : Form) (s : State) :
  (forall msg, validateChangeForm f = inl msg ->
     handleAddChange fx now storyId f s = (f, setErrorMessage msg s) /\
     remoteCalls (snd (handleAddChange fx now storyId f s)) = remoteCalls s /\
     db (snd (handleAddChange fx now storyId f s)) = db s /\
     userStories (snd (handleAddChange fx now storyId f s)) = userStories s) /\
  (forall ct d cur, validateChangeForm f = inr (ct, d) ->
     selectChanges fx (db s) storyId = Some cur -> updateFails fx = false ->
     let next := cur ++ [{| ch_id := now; ch_type := ct; details := d |}] in
     let s' := snd (handleAddChange fx now storyId f s) in
     remoteCalls s' =
       remoteCalls s ++ [RSelectChanges storyId; RUpdateChanges storyId next] /\
     db s' = updateChangesTable (db s) storyId next /\
     selectChangesSingle (db s') storyId = Some next /\
     userStories s' = mapStoryChanges (userStories s) storyId next).
Proof.
  split.
  - intros msg Hv. unfold handleAddChange. rewrite Hv. simpl.
    repeat split; reflexivity.
  - intros ct d cur Hv Hsel Hupd. unfold handleAddChange. rewrite Hv. simpl.
    unfold addChange. rewrite Hsel. unfold updateChanges. rewrite Hupd. simpl.
    unfold selectChanges in Hsel. destruct (fetchFails fx); [discriminate |].
    rewrite <- app_assoc. simpl.
    repeat split; try reflexivity.
    eapply selectChangesSingle_update; exact Hsel.
Qed.

(** C2: when the read of the current changes fails (transport error, or
    [.single()] finding no unique row), or the read succeeds and the write
    fails, [addChange] and [removeChange] surface the failure in the error
    banner and leave the local story cache, the table and the signed-in user
    as they were. *)
Theorem change_rmw_failure_keeps_local_state (fx : Faults) (storyId : string)
  (s : State)
  (Hfail : selectChanges fx (db s) storyId = None \/ updateFails fx = true) :
  (forall now ct d,
     let s' := addChange fx now storyId ct d s in
     userStories s' = userStories s /\ db s' = db s /\
     currentUser s' = currentUser s /\
     (errorMessage s' = "Error fetching user story" \/
      errorMessage s' = "Error adding change")) /\
  (forall changeId,
     let s' := removeChange fx storyId changeId s in
     userStories s' = userStories s /\ db s' = db s /\
     currentUser s' = currentUser s /\
     (errorMessage s' = "Error fetching user story" \/
      errorMessage s' = "Error removing change")).
Proof.
  split; [intros now ct d; unfold addChange | intros changeId; unfold removeChange];
    destruct (selectChanges fx (db s) storyId) as [cur |] eqn:Hsel;
    simpl; try (repeat split; auto; fail);
    (destruct Hfail as [Hf | Hf]; [discriminate |]);
    unfold updateChanges; rewrite Hf; simpl; repeat split; auto.
Qed.

Lemma change_rmw_failure_keeps_local_state_witness :
  let s := initState [sampleStory "s1" "US-1"] in
  selectChanges {| fetchFails := true; updateFails := false |} (db s) "s1" = None /\
  userStories (addChange {| fetchFails := true; updateFails := false |}
                 "1" "s1" Profile
                 (DProfile {| pc_date := "d"; pc_profile := "p"; pc_note := "" |}) s)
    = userStories s.
Proof.
  simpl. split; [reflexivity |].
  destruct (change_rmw_failure_keeps_local_state
              {| fetchFails := true; updateFails := false |} "s1"
              (initState [sampleStory "s1" "US-1"]) (or_introl eq_refl)) as [Hadd _].
  apply (Hadd "1" Profile (DProfile {| pc_date := "d"; pc_profile := "p"; pc_note := "" |})).
Defined.

(** C4: on a successful read of [cur] and a successful write,
    [removeChange storyId changeId] computes [cur] without the entries whose
    id is [changeId] (their order kept), writes that list back and installs
    it in the local cache; when no entry of [cur] has id [changeId], the
    list is [cur] itself. *)
Theorem removeChange_filters_matching_id (fx : Faults) (storyId changeId : string)
  (s : State) (cur : list Change)
  (Hsel : selectChanges fx (db s) storyId = Some cur)
  (Hupd : updateFails fx = false) :
  let next := filter (fun change => negb (String.eqb (ch_id change) changeId)) cur in
  let s' := removeChange fx storyId changeId s in
  remoteCalls s' = remoteCalls s ++ [RSelectChanges storyId; RUpdateChanges storyId next] /\
  db s' = updateChangesTable (db s) storyId next /\
  selectChangesSingle (db s') storyId = Some next /\
  userStories s' = mapStoryChanges (userStories s) storyId next /\
  (forall c, In c next <-> In c cur /\ ch_id c <> changeId) /\
  (~ In changeId (map ch_id cur) -> next = cur).
Proof.
  intros next s'. subst s'. unfold removeChange. rewrite Hsel.
  unfold updateChanges. rewrite Hupd. simpl.
  unfold selectChanges in Hsel. destruct (fetchFails fx); [discriminate |].
  rewrite <- app_assoc. simpl.
  split; [reflexivity |]. split; [reflexivity |].
  split; [eapply selectChangesSingle_update; exact Hsel |].
  split; [reflexivity |]. split.
  - intros c. subst next. rewrite filter_In, negb_true_iff, String.eqb_neq.
    reflexivity.
  - intros Hnone. subst next. clear Hsel.
    induction cur as [| c cur IH]; simpl; [reflexivity |].
    simpl in Hnone. destruct (String.eqb_spec (ch_id c) changeId) as [E | E].
    + exfalso. apply Hnone. now left.
    + simpl. f_equal. apply IH. intros H. apply Hnone. now right.
Qed.

Lemma removeChange_filters_matching_id_witness :
  let s := initState [storyWithChanges "s1" [sampleChange "7"; sampleChange "8"]] in
  selectChangesSingle
    (db (removeChange noFaults "s1" "7" s)) "s1" = Some [sampleChange "8"].
Proof.
  intros s.
  destruct (removeChange_filters_matching_id noFaults "s1" "7" s
              [sampleChange "7"; sampleChange "8"] eq_refl eq_refl)
    as [_ [_ [H _]]].
  exact H.
Defined.

Lemma handleAddChange_validates_then_appends_witness :
  let f := runForm initForm [SetChangeType Profile; SetText IDate "2024-01-02";
                             SetText IProfile "Admin"] in
  let s := initState [storyWithChanges "s1" [sampleChange "7"]] in
  selectChangesSingle (db (snd (handleAddChange noFaults "8" "s1" f s))) "s1"
    = Some [sampleChange "7"; sampleChange "8"].
Proof.
  intros f s.
  destruct (handleAddChange_validates_then_appends noFaults "8" "s1" f s)
    as [_ Hok].
  exact (proj1 (proj2 (proj2 (Hok Profile
           (DProfile {| pc_date := "2024-01-02"; pc_profile := "Admin"; pc_note := "" |})
           [sampleChange "7"] eq_refl eq_refl eq_refl)))).
Defined.

(** C3 (as stated, refuted): [removeChange] drops every entry carrying the
    id, so when the read list already holds an entry whose id equals the new
    [Date.now()] id, appending and then removing that id also drops the old
    entry. *)
Lemma addChange_removeChange_roundtrip_cex :
  let s := initState [storyWithChanges "s1" [sampleChange "5"]] in
  let s2 := removeChange noFaults "s1" "5"
              (addChange noFaults "5" "s1" Profile (details (sampleChange "5")) s) in
  selectChangesSingle (db s) "s1" = Some [sampleChange "5"] /\
  selectChangesSingle (db s2) "s1" = Some [].
Proof. split; reflexivity. Qed.

Lemma filter_appended_fresh (cur : list Change) (c : Change) :
  ~ In (ch_id c) (map ch_id cur) ->
  filter (fun change => negb (String.eqb (ch_id change) (ch_id c))) (cur ++ [c]) = cur.
Proof.
  intros Hfresh. rewrite filter_app. simpl. rewrite String.eqb_refl. simpl.
  rewrite app_nil_r. induction cur as [| c' cur IH]; simpl; [reflexivity |].
  simpl in Hfresh. destruct (String.eqb_spec (ch_id c') (ch_id c)) as [E | E].
  - exfalso. apply Hfresh. now left.
  - simpl. f_equal. apply IH. intros H. apply Hfresh. now right.
Qed.

(** C3 (amended): when the read and the write of both calls succeed and no
    entry of the story's current changes [cur] already has the new id
    [now], [addChange] followed by [removeChange] with [now] restores the
    stored changes to [cur], and the cached story's changes too. *)
Theorem addChange_removeChange_roundtrip (now storyId : string) (ct : ChangeType)
  (d : Details) (s : State) (cur : list Change)
  (Hsel : selectChangesSingle (db s) storyId = Some cur)
  (Hfresh : ~ In now (map ch_id cur)) :
  let s2 := removeChange noFaults storyId now (addChange noFaults now storyId ct d s) in
  selectChangesSingle (db s2) storyId = Some cur /\
  userStories s2 = mapStoryChanges (userStories s) storyId cur.
Proof.
  intros s2. subst s2.
  set (c := {| ch_id := now; ch_type := ct; details := d |}).
  assert (Hadd : selectChangesSingle
                   (db (addChange noFaults now storyId ct d s)) storyId
                 = Some (cur ++ [c])).
  { unfold addChange, selectChanges, updateChanges; cbn [fetchFails updateFails noFaults].
    rewrite Hsel. cbn [db setUserStories setDb logCall].
    eapply selectChangesSingle_update; exact Hsel. }
  assert (Hf : filter (fun change => negb (String.eqb (ch_id change) now)) (cur ++ [c])
               = cur) by (apply (filter_appended_fresh cur c Hfresh)).
  set (s1 := addChange noFaults now storyId ct d s) in *.
  unfold removeChange, selectChanges, updateChanges.
  cbn [fetchFails updateFails noFaults]. rewrite Hadd, Hf.
  cbn [db userStories setUserStories setDb logCall].
  split.
  - eapply selectChangesSingle_update; exact Hadd.
  - subst s1. unfold addChange, selectChanges, updateChanges.
    cbn [fetchFails updateFails noFaults].
    rewrite Hsel. cbn [userStories setUserStories setDb logCall].
    apply mapStoryChanges_twice.
Qed.

Lemma addChange_removeChange_roundtrip_witness :
  let s := initState [storyWithChanges "s1" [sampleChange "5"]] in
  selectChangesSingle
    (db (removeChange noFaults "s1" "6"
           (addChange noFaults "6" "s1" Profile (details (sampleChange "6")) s))) "s1"
    = Some [sampleChange "5"].
Proof.
  intros s.
  apply (addChange_removeChange_roundtrip "6" "s1" Profile (details (sampleChange "6"))
           s [sampleChange "5"] eq_refl).
  simpl. intros [H | []]. discriminate.
Defined.

(** ** Change form *)

Lemma falsy_iff (x : string) : falsy x = true <-> x = "".
Proof. apply String.eqb_eq. Qed.

Lemma formStep_keeps_access_off (f : Form) (e : FormEvent) :
  touchesAccess e = false -> readAccess f = false -> writeAccess f = false ->
  readAccess (formStep f e) = false /\ writeAccess (formStep f e) = false.
Proof.
  intros He Hr Hw. destruct e; simpl in *; try discriminate; auto.
  destruct (validateChangeForm f); simpl; auto.
Qed.

Lemma runForm_keeps_access_off (es : list FormEvent) (f : Form) :
  forallb (fun e => negb (touchesAccess e)) es = true ->
  readAccess f = false -> writeAccess f = false ->
  readAccess (runForm f es) = false /\ writeAccess (runForm f es) = false.
Proof.
  revert f. induction es as [| e es IH]; intros f Hes Hr Hw; simpl in *; auto.
  apply andb_true_iff in Hes as [He Hes]. apply negb_true_iff in He.
  destruct (formStep_keeps_access_off f e He Hr Hw) as [Hr' Hw'].
  apply IH; auto.
Qed.

(** C5 (as stated, refuted): a Permission draft with a date and a
    permission set but an empty permission is rejected. *)
Lemma permission_one_field_cex :
  changeType permissionFormWithoutPermission = Permission /\
  date permissionFormWithoutPermission <> "" /\
  permissionSet permissionFormWithoutPermission <> "" /\
  validateChangeForm permissionFormWithoutPermission =
    inl "Please fill in all required fields for Permission Change.".
Proof.
  split; [reflexivity |]. split; [discriminate |]. split; [discriminate |].
  reflexivity.
Qed.

(** C5 (amended): a Permission draft passes validation exactly when its
    date, its permission set and its permission are all non-empty; the
    stored access flags are the form's two checkboxes, and a caller who
    never touches them (from the initial form, through any inputs and
    submissions) gets both flags false. *)
Theorem permission_validation_and_access_default :
  (forall f, changeType f = Permission ->
     (exists d, validateChangeForm f = inr (Permission, DPermission d)) <->
     (date f <> "" /\ permissionSet f <> "" /\ permission f <> "")) /\
  (forall f d, validateChangeForm f = inr (Permission, DPermission d) ->
     pm_access d = {| read := readAccess f; write := writeAccess f |}) /\
  (forall es d,
     forallb (fun e => negb (touchesAccess e)) es = true ->
     validateChangeForm (runForm initForm es) = inr (Permission, DPermission d) ->
     pm_access d = {| read := false; write := false |}).
Proof.
  assert (Hacc : forall f d, validateChangeForm f = inr (Permission, DPermission d) ->
                 pm_access d = {| read := readAccess f; write := writeAccess f |}).
  { intros f d H. unfold validateChangeForm in H.
    destruct (falsy (date f)); [discriminate |].
    destruct (changeType f).
    - destruct (_ || _ || _); discriminate.
    - destruct (_ || _); discriminate.
    - destruct (falsy _); discriminate.
    - destruct (_ || _); [discriminate |]. injection H as <-. reflexivity. }
  split; [| split; [exact Hacc |]].
  - intros f Hty. unfold validateChangeForm. rewrite Hty.
    destruct (falsy (date f)) eqn:Hd;
      [| destruct (falsy (permissionSet f)) eqn:Hs;
         [| destruct (falsy (permission f)) eqn:Hp]]; simpl;
      rewrite ?falsy_iff in *.
    + split; [intros [d H]; discriminate | intros [H _]; contradiction].
    + split; [intros [d H]; discriminate | intros [_ [H _]]; contradiction].
    + split; [intros [d H]; discriminate | intros [_ [_ H]]; contradiction].
    + split; [intros _ | intros _; eexists; reflexivity].
      split; [| split]; intros E; apply falsy_iff in E; congruence.
  - intros es d Hes Hv. rewrite (Hacc _ _ Hv).
    destruct (runForm_keeps_access_off es initForm Hes eq_refl eq_refl) as [-> ->].
    reflexivity.
Qed.

Lemma permission_validation_and_access_default_witness :
  exists d, validateChangeForm (runForm initForm permissionEvents)
              = inr (Permission, DPermission d) /\
            pm_access d = {| read := false; write := false |}.
Proof.
  eexists. split; [reflexivity |].
  destruct permission_validation_and_access_default as [_ [_ H]].
  apply (H permissionEvents); reflexivity.
Defined.

(** ** Session and story cache *)





(** [fetchUserStories] and [addUserStory] are their call followed at once
    by the return of its request. *)
Lemma fetchUserStories_call_resolve (fails : bool) (s : State) :
  fetchUserStories fails s
  = fold_left (fun s r => resolveRequest fails r s)
      (snd (fetchUserStoriesCall s)) (fst (fetchUserStoriesCall s)).
Proof.
  unfold fetchUserStories, fetchUserStoriesCall.
  destruct (currentUser s); [destruct fails |]; reflexivity.
Qed.

Lemma addUserStory_call_resolve (fails : bool) (newId num tit desc dt : string)
  (s : State) :
  addUserStory fails newId num tit desc dt s
  = fold_left (fun s r => resolveRequest fails r s)
      (snd (addUserStoryCall newId num tit desc dt s))
      (fst (addUserStoryCall newId num tit desc dt s)).
Proof.
  unfold addUserStory, addUserStoryCall.
  destruct (currentUser s); [| reflexivity].
  destruct (_ || _ || _); [reflexivity |]. destruct fails; reflexivity.
Qed.





(** ** Deleting a story *)

(** C7 (as stated, refuted): Alice deletes id "x" while the only row with
    that id belongs to Bob.  No story with id "x" and owner Alice exists,
    yet the delete reports no error, and it removes Bob's row. *)
Lemma removeUserStory_no_notfound_cex :
  let s := setCurrentUser (Some "alice") (initState [ownedStory "x" "bob"]) in
  let s' := removeUserStory false "x" s in
  ~ (exists st, In st (db s) /\ us_id st = "x" /\ userId st = "alice") /\
  errorMessage s' = "" /\ db s' = [].
Proof.
  split; [| split; reflexivity].
  intros [st [[<- | []] [_ Hown]]]. discriminate.
Qed.

(** C7 (amended): without a transport failure, [removeUserStory id]
    deletes from the table every row with that id, whatever its owner, with
    its embedded changes, drops those stories from the cache, and shows no
    error; when no row has that id nothing changes in the table and no
    error is shown.  On a transport failure it shows an error and changes
    neither the table nor the cache. *)
Theorem removeUserStory_deletes_by_id (id : string) (s : State) :
  (let s' := removeUserStory false id s in
   db s' = filter (fun st => negb (String.eqb (us_id st) id)) (db s) /\
   userStories s' = filter (fun st => negb (String.eqb (us_id st) id)) (userStories s) /\
   errorMessage s' = errorMessage s /\
   (forall st, In st (db s') -> us_id st <> id) /\
   (~ In id (map us_id (db s)) -> db s' = db s)) /\
  (let s' := removeUserStory true id s in
   db s' = db s /\ userStories s' = userStories s /\
   errorMessage s' = "Error removing user story").
Proof.
  split; [| repeat split].
  simpl. split; [reflexivity |]. split; [reflexivity |]. split; [reflexivity |].
  split.
  - intros st Hin. apply filter_In in Hin as [_ Hin].
    apply negb_true_iff, String.eqb_neq in Hin. exact Hin.
  - intros Hnone. induction (db s) as [| st t IH]; simpl; [reflexivity |].
    simpl in Hnone. destruct (String.eqb_spec (us_id st) id) as [E | E].
    + exfalso. apply Hnone. now left.
    + simpl. f_equal. apply IH. intros H. apply Hnone. now right.
Qed.

(** ** Two [addChange] calls in flight *)

(** Run to completion, the two halves of [addChangeResume] are [addChange]. *)
Lemma addChange_is_two_resumes (fx : Faults) (now storyId : string)
  (ct : ChangeType) (d : Details) (s : State) :
  addChange fx now storyId ct d s =
  let '(k, s1) := addChangeResume fx now storyId ct d AwaitSelect s in
  snd (addChangeResume fx now storyId ct d k s1).
Proof.
  unfold addChange. simpl.
  destruct (selectChanges fx (db s) storyId); simpl; [| reflexivity].
  destruct (updateChanges fx (db s) storyId _); reflexivity.
Qed.

(** C8: both calls read the story's changes [cur] before either writes;
    the first writes [cur ++ [e1]], the second then writes [cur ++ [e2]],
    so the stored list keeps [e2] and has lost [e1]. *)
Theorem interleaved_addChange_lost_update (storyId : string) (s : State)
  (cur : list Change) (now1 now2 : string) (ct1 ct2 : ChangeType)
  (d1 d2 : Details)
  (Hsel : selectChangesSingle (db s) storyId = Some cur) :
  let e1 := {| ch_id := now1; ch_type := ct1; details := d1 |} in
  let e2 := {| ch_id := now2; ch_type := ct2; details := d2 |} in
  let s' := interleave noFaults storyId [true; false; true; false]
              (startCall now1 ct1 d1) (startCall now2 ct2 d2) s in
  remoteCalls s' =
    remoteCalls s ++ [RSelectChanges storyId; RSelectChanges storyId;
                      RUpdateChanges storyId (cur ++ [e1]);
                      RUpdateChanges storyId (cur ++ [e2])] /\
  selectChangesSingle (db s') storyId = Some (cur ++ [e2]) /\
  In e2 (cur ++ [e2]) /\
  (~ In e1 cur -> e1 <> e2 -> ~ In e1 (cur ++ [e2])).
Proof.
  intros e1 e2 s'. subst s'.
  unfold interleave, resumeCall, startCall, addChangeResume, selectChanges,
    updateChanges.
  cbn -[selectChangesSingle updateChangesTable app]. rewrite Hsel.
  cbn -[selectChangesSingle updateChangesTable app]. rewrite Hsel.
  cbn -[selectChangesSingle updateChangesTable app].
  split; [rewrite <- !app_assoc; reflexivity |].
  split; [| split].
  - eapply selectChangesSingle_update.
    eapply selectChangesSingle_update. exact Hsel.
  - apply in_or_app. right. now left.
  - intros Hcur Hne Hin. apply in_app_or in Hin as [Hin | [Hin | []]];
      [contradiction | congruence].
Qed.

Lemma interleaved_addChange_lost_update_witness :
  let s := initState [storyWithChanges "s1" []] in
  let s' := interleave noFaults "s1" [true; false; true; false]
              (startCall "1" Profile (details (sampleChange "1")))
              (startCall "2" Profile (details (sampleChange "2"))) s in
  selectChangesSingle (db s') "s1" = Some [sampleChange "2"] /\
  ~ In (sampleChange "1") [sampleChange "2"].
Proof.
  intros s s'.
  destruct (interleaved_addChange_lost_update "s1" s [] "1" "2" Profile Profile
              (details (sampleChange "1")) (details (sampleChange "2")) eq_refl)
    as [_ [H [_ Hlost]]].
  split; [exact H |].
  apply Hlost; [intros [] | discriminate].
Defined.

(** * Further properties of the component *)

(** ** The change form's checks *)

Lemma falsy_false (x : string) : falsy x = false <-> x <> "".
Proof. apply String.eqb_neq. Qed.

Ltac falsy_cases :=
  repeat match goal with
         | |- context [falsy ?x] =>
             let H := fresh "Hf" in destruct (falsy x) eqn:H;
             [apply falsy_iff in H | apply falsy_false in H]
         end; simpl.

(** X1: [handleAddChange] accepts the form exactly when the date and the
    inputs required by the selected type are non-empty (Field: API name,
    label, field type; LWC: component name, file type; Profile: profile;
    Permission: permission set and permission); the accepted change carries
    the selected type and the details variant of that type. *)
Theorem validateChangeForm_requirements (f : Form) :
  ((exists ct d, validateChangeForm f = inr (ct, d)) <->
   date f <> "" /\
   match changeType f with
   | Field => fieldApiName f <> "" /\ fieldLabel f <> "" /\ fieldType f <> ""
   | LWC => lwcComponentName f <> "" /\ lwcFileType f <> ""
   | Profile => profile f <> ""
   | Permission => permissionSet f <> "" /\ permission f <> ""
   end) /\
  (forall ct d now, validateChangeForm f = inr (ct, d) ->
     ct = changeType f /\
     detailsMatchType {| ch_id := now; ch_type := ct; details := d |} = true).
Proof.
  split.
  - unfold validateChangeForm. destruct (changeType f); falsy_cases;
      (split; [intros [ct [d H]]; try discriminate; tauto
              | intros H; try (eexists; eexists; reflexivity); exfalso; tauto]).
  - intros ct d now. unfold validateChangeForm.
    destruct (changeType f) eqn:Hty; falsy_cases; intros H; try discriminate;
      injection H as <- <-; split; reflexivity.
Qed.

Lemma validateChangeForm_requirements_witness :
  exists ct d, validateChangeForm
                 (runForm initForm [SetChangeType LWC; SetText IDate "2024-01-02";
                                    SetText ILwcComponentName "accountCard";
                                    SetText ILwcFileType "js"]) = inr (ct, d).
Proof.
  apply (proj2 (proj1 (validateChangeForm_requirements _))).
  split; [discriminate | split; discriminate].
Defined.

(** ** Every stored change is tagged with the variant of its details *)

Lemma selectChangesSingle_in (t : list UserStory) (storyId : string)
  (cur : list Change) :
  selectChangesSingle t storyId = Some cur ->
  exists st, In st t /\ changes st = cur.
Proof.
  unfold selectChangesSingle.
  destruct (filter _ t) as [| st [| st' l]] eqn:E; try discriminate.
  intros H. injection H as <-. exists st. split; [| reflexivity].
  assert (Hin : In st (filter (fun st => String.eqb (us_id st) storyId) t))
    by (rewrite E; now left).
  apply filter_In in Hin. tauto.
Qed.

Lemma wellTagged_replace (l : list UserStory) (storyId : string) (cs : list Change) :
  wellTagged l -> (forall c, In c cs -> detailsMatchType c = true) ->
  wellTagged (map (fun st => if String.eqb (us_id st) storyId
                             then withChanges st cs else st) l).
Proof.
  intros Hl Hcs st c Hin Hc. apply in_map_iff in Hin as [st0 [<- Hin0]].
  destruct (String.eqb (us_id st0) storyId); simpl in Hc; eauto.
Qed.

Lemma wellTagged_filter (l : list UserStory) (p : UserStory -> bool) :
  wellTagged l -> wellTagged (filter p l).
Proof. intros Hl st c Hin. apply filter_In in Hin as [Hin _]. eauto. Qed.

Lemma wellTagged_app (l l' : list UserStory) :
  wellTagged l -> wellTagged l' -> wellTagged (l ++ l').
Proof. intros Hl Hl' st c Hin. apply in_app_or in Hin as [Hin | Hin]; eauto. Qed.

(** The read-modify-write of [addChange] and [removeChange]: the table and
    the cache either stay as they are or get [cs] for the story, where [cs]
    is computed from the changes [cur] read from the table. *)
Lemma rmw_shape (fx : Faults) (storyId : string) (s s' : State)
  (k : list Change -> list Change) (msg1 msg2 : string) :
  s' = (let s1 := logCall (RSelectChanges storyId) s in
        match selectChanges fx (db s) storyId with
        | None => setErrorMessage msg1 s1
        | Some data =>
            let s2 := logCall (RUpdateChanges storyId (k data)) s1 in
            match updateChanges fx (db s) storyId (k data) with
            | None => setErrorMessage msg2 s2
            | Some t' =>
                setUserStories (mapStoryChanges (userStories s) storyId (k data))
                  (setDb t' s2)
            end
        end) ->
  (db s' = db s /\ userStories s' = userStories s) \/
  (exists cur, selectChangesSingle (db s) storyId = Some cur /\
     db s' = updateChangesTable (db s) storyId (k cur) /\
     userStories s' = mapStoryChanges (userStories s) storyId (k cur)).
Proof.
  intros ->. unfold selectChanges, updateChanges.
  destruct (fetchFails fx); [left; split; reflexivity |].
  destruct (selectChangesSingle (db s) storyId) as [cur |] eqn:Hsel;
    [| left; split; reflexivity].
  destruct (updateFails fx); [left; split; reflexivity |].
  right. exists cur. repeat split; reflexivity.
Qed.

Lemma addChange_shape (fx : Faults) (now storyId : string) (ct : ChangeType)
  (d : Details) (s : State) :
  let s' := addChange fx now storyId ct d s in
  (db s' = db s /\ userStories s' = userStories s) \/
  (exists cur, selectChangesSingle (db s) storyId = Some cur /\
     db s' = updateChangesTable (db s) storyId
               (cur ++ [{| ch_id := now; ch_type := ct; details := d |}]) /\
     userStories s' = mapStoryChanges (userStories s) storyId
               (cur ++ [{| ch_id := now; ch_type := ct; details := d |}])).
Proof. intros s'. eapply rmw_shape. reflexivity. Qed.

Lemma removeChange_shape (fx : Faults) (storyId changeId : string) (s : State) :
  let s' := removeChange fx storyId changeId s in
  (db s' = db s /\ userStories s' = userStories s) \/
  (exists cur, selectChangesSingle (db s) storyId = Some cur /\
     db s' = updateChangesTable (db s) storyId
               (filter (fun change => negb (String.eqb (ch_id change) changeId)) cur) /\
     userStories s' = mapStoryChanges (userStories s) storyId
               (filter (fun change => negb (String.eqb (ch_id change) changeId)) cur)).
Proof. intros s'. eapply rmw_shape. reflexivity. Qed.

Lemma step_wellTagged (s : State) (e : Event) :
  wellTagged (db s) -> wellTagged (userStories s) ->
  wellTagged (db (step s e)) /\ wellTagged (userStories (step s e)).
Proof.
  intros Hdb Hus.
  destruct e as [u | b | b i n t d dt | b i | fx now sid f | fx sid cid]; simpl.
  - auto.
  - unfold fetchUserStories. destruct (currentUser s); [| auto].
    destruct b; simpl; [auto |]. split; [exact Hdb | now apply wellTagged_filter].
  - unfold addUserStory. destruct (currentUser s); [| auto].
    destruct (_ || _ || _); simpl; [auto |]. destruct b; simpl; [auto |].
    assert (Hrow : forall r : UserStory, changes r = [] -> wellTagged [r])
      by (intros r Hr st c [<- | []] Hc; rewrite Hr in Hc; destruct Hc).
    split; apply wellTagged_app; auto; apply Hrow; reflexivity.
  - unfold removeUserStory. destruct b; simpl; [auto |].
    split; now apply wellTagged_filter.
  - unfold handleAddChange.
    destruct (validateChangeForm f) as [msg | [ct d]] eqn:Hv; simpl; [auto |].
    destruct (proj2 (validateChangeForm_requirements f) ct d now Hv) as [_ Hnew].
    destruct (addChange_shape fx now sid ct d s)
      as [[-> ->] | [cur [Hsel [-> ->]]]]; [auto |].
    destruct (selectChangesSingle_in _ _ _ Hsel) as [st0 [Hin0 Hch0]].
    assert (Hcs : forall c, In c (cur ++ [{| ch_id := now; ch_type := ct; details := d |}]) ->
                            detailsMatchType c = true).
    { intros c Hc. apply in_app_or in Hc as [Hc | [<- | []]]; [| exact Hnew].
      rewrite <- Hch0 in Hc. eauto. }
    split; apply wellTagged_replace; auto.
  - destruct (removeChange_shape fx sid cid s)
      as [[-> ->] | [cur [Hsel [-> ->]]]]; [auto |].
    destruct (selectChangesSingle_in _ _ _ Hsel) as [st0 [Hin0 Hch0]].
    assert (Hcs : forall c,
               In c (filter (fun change => negb (String.eqb (ch_id change) cid)) cur) ->
               detailsMatchType c = true).
    { intros c Hc. apply filter_In in Hc as [Hc _]. rewrite <- Hch0 in Hc. eauto. }
    split; apply wellTagged_replace; auto.
Qed.

(** X2: starting from a table whose changes are all tagged with the variant
    of their details, every run of the component keeps every change in the
    table and in the local cache tagged with the variant of its details. *)
Theorem run_keeps_changes_wellTagged (t : list UserStory) (es : list Event)
  (Ht : wellTagged t) :
  wellTagged (db (run (initState t) es)) /\
  wellTagged (userStories (run (initState t) es)).
Proof.
  assert (Hrun : forall l s0, wellTagged (db s0) -> wellTagged (userStories s0) ->
            wellTagged (db (run s0 l)) /\ wellTagged (userStories (run s0 l))).
  { intros l. induction l as [| e l IH]; intros s0 Hdb Hus; [auto |].
    simpl. destruct (step_wellTagged s0 e Hdb Hus). apply IH; assumption. }
  apply Hrun; [exact Ht | intros st c []].
Qed.

Lemma run_keeps_changes_wellTagged_witness :
  let t := [storyWithChanges "s1" [sampleChange "5"]] in
  wellTagged t /\
  wellTagged (db (run (initState t)
                    [AuthStateChange (Some "u1"); FetchUserStories false;
                     SubmitChangeForm noFaults "6" "s1" (runForm initForm permissionEvents);
                     RemoveChange noFaults "s1" "5"])).
Proof.
  intros t.
  assert (Ht : wellTagged t).
  { intros st c [<- | []] [<- | []]. reflexivity. }
  split; [exact Ht |].
  exact (proj1 (run_keeps_changes_wellTagged t _ Ht)).
Defined.

(** ** Composition of change-log operations *)

Lemma updateChangesTable_twice (t : list UserStory) (storyId : string)
  (a b : list Change) :
  updateChangesTable (updateChangesTable t storyId a) storyId b =
  updateChangesTable t storyId b.
Proof. apply mapStoryChanges_twice. Qed.

Lemma addChange_success (now storyId : string) (ct : ChangeType) (d : Details)
  (s : State) (cur : list Change) :
  selectChangesSingle (db s) storyId = Some cur ->
  let next := cur ++ [{| ch_id := now; ch_type := ct; details := d |}] in
  db (addChange noFaults now storyId ct d s) = updateChangesTable (db s) storyId next /\
  userStories (addChange noFaults now storyId ct d s)
    = mapStoryChanges (userStories s) storyId next.
Proof.
  intros Hsel next. unfold addChange, selectChanges, updateChanges.
  cbn [fetchFails updateFails noFaults]. rewrite Hsel. split; reflexivity.
Qed.

Lemma removeChange_success (storyId changeId : string) (s : State)
  (cur : list Change) :
  selectChangesSingle (db s) storyId = Some cur ->
  let next := filter (fun change => negb (String.eqb (ch_id change) changeId)) cur in
  db (removeChange noFaults storyId changeId s) = updateChangesTable (db s) storyId next /\
  userStories (removeChange noFaults storyId changeId s)
    = mapStoryChanges (userStories s) storyId next.
Proof.
  intros Hsel next. unfold removeChange, selectChanges, updateChanges.
  cbn [fetchFails updateFails noFaults]. rewrite Hsel. split; reflexivity.
Qed.

(** X3: two [addChange] calls on the same story, the second started after
    the first completed, both succeeding: the story's stored changes are
    the read list followed by the first new change and then the second, and
    the cached story holds the same list. *)
Theorem addChange_sequential_appends_in_order (storyId now1 now2 : string)
  (ct1 ct2 : ChangeType) (d1 d2 : Details) (s : State) (cur : list Change)
  (Hsel : selectChangesSingle (db s) storyId = Some cur) :
  let e1 := {| ch_id := now1; ch_type := ct1; details := d1 |} in
  let e2 := {| ch_id := now2; ch_type := ct2; details := d2 |} in
  let s2 := addChange noFaults now2 storyId ct2 d2
              (addChange noFaults now1 storyId ct1 d1 s) in
  selectChangesSingle (db s2) storyId = Some (cur ++ [e1; e2]) /\
  userStories s2 = mapStoryChanges (userStories s) storyId (cur ++ [e1; e2]).
Proof.
  intros e1 e2 s2.
  destruct (addChange_success now1 storyId ct1 d1 s cur Hsel) as [Hdb1 Hus1].
  assert (Hsel1 : selectChangesSingle (db (addChange noFaults now1 storyId ct1 d1 s)) storyId
                  = Some (cur ++ [e1]))
    by (rewrite Hdb1; eapply selectChangesSingle_update; exact Hsel).
  destruct (addChange_success now2 storyId ct2 d2 _ _ Hsel1) as [Hdb2 Hus2].
  subst s2. rewrite Hdb2, Hus2, Hus1, mapStoryChanges_twice, <- app_assoc.
  split; [| reflexivity].
  eapply selectChangesSingle_update; exact Hsel1.
Qed.

Lemma addChange_sequential_appends_in_order_witness :
  let s := initState [storyWithChanges "s1" []] in
  selectChangesSingle
    (db (addChange noFaults "2" "s1" Profile (details (sampleChange "2"))
           (addChange noFaults "1" "s1" Profile (details (sampleChange "1")) s))) "s1"
    = Some [sampleChange "1"; sampleChange "2"].
Proof.
  intros s.
  exact (proj1 (addChange_sequential_appends_in_order "s1" "1" "2" Profile Profile
                  (details (sampleChange "1")) (details (sampleChange "2")) s []
                  eq_refl)).
Defined.

Lemma filter_idem (A : Type) (p : A -> bool) (l : list A) :
  filter p (filter p l) = filter p l.
Proof.
  induction l as [| x l IH]; simpl; [reflexivity |].
  destruct (p x) eqn:Hp; simpl; [rewrite Hp; f_equal |]; exact IH.
Qed.

(** X4: removing the same change id twice in a row, both calls succeeding,
    leaves the table and the cache as removing it once. *)
Theorem removeChange_idempotent (storyId changeId : string) (s : State)
  (cur : list Change)
  (Hsel : selectChangesSingle (db s) storyId = Some cur) :
  let s1 := removeChange noFaults storyId changeId s in
  let s2 := removeChange noFaults storyId changeId s1 in
  db s2 = db s1 /\ userStories s2 = userStories s1.
Proof.
  intros s1 s2.
  set (p := fun change => negb (String.eqb (ch_id change) changeId)).
  destruct (removeChange_success storyId changeId s cur Hsel) as [Hdb1 Hus1].
  assert (Hsel1 : selectChangesSingle (db s1) storyId = Some (filter p cur))
    by (subst s1; rewrite Hdb1; eapply selectChangesSingle_update; exact Hsel).
  destruct (removeChange_success storyId changeId s1 _ Hsel1) as [Hdb2 Hus2].
  subst s2. rewrite Hdb2, Hus2. fold p.
  rewrite filter_idem. subst s1. rewrite Hdb1, Hus1. fold p.
  split; [apply updateChangesTable_twice | apply mapStoryChanges_twice].
Qed.

Lemma removeChange_idempotent_witness :
  let s := initState [storyWithChanges "s1" [sampleChange "5"; sampleChange "6"]] in
  db (removeChange noFaults "s1" "5" (removeChange noFaults "s1" "5" s))
    = db (removeChange noFaults "s1" "5" s).
Proof.
  intros s.
  exact (proj1 (removeChange_idempotent "s1" "5" s _ eq_refl)).
Defined.

Lemma filter_other_rows (t : list UserStory) (storyId : string) (cs : list Change) :
  filter (fun st => negb (String.eqb (us_id st) storyId)) (updateChangesTable t storyId cs)
  = filter (fun st => negb (String.eqb (us_id st) storyId)) t.
Proof.
  induction t as [| st t IH]; simpl; [reflexivity |].
  destruct (String.eqb (us_id st) storyId) eqn:E; simpl; rewrite E; simpl;
    [exact IH | f_equal; exact IH].
Qed.

(** X5: whatever the outcome of its remote calls, [addChange] or
    [removeChange] on [storyId] leaves every other story, in the table and
    in the local cache, exactly as it was (same rows, same order). *)
Theorem change_ops_leave_other_stories (fx : Faults) (storyId : string)
  (s : State) :
  let other := filter (fun st => negb (String.eqb (us_id st) storyId)) in
  (forall now ct d,
     other (db (addChange fx now storyId ct d s)) = other (db s) /\
     other (userStories (addChange fx now storyId ct d s)) = other (userStories s)) /\
  (forall changeId,
     other (db (removeChange fx storyId changeId s)) = other (db s) /\
     other (userStories (removeChange fx storyId changeId s)) = other (userStories s)).
Proof.
  intros other. split.
  - intros now ct d.
    destruct (addChange_shape fx now storyId ct d s)
      as [[-> ->] | [cur [_ [-> ->]]]]; [auto |].
    split; apply filter_other_rows.
  - intros changeId.
    destruct (removeChange_shape fx storyId changeId s)
      as [[-> ->] | [cur [_ [-> ->]]]]; [auto |].
    split; apply filter_other_rows.
Qed.

(** ** Adding a story *)

Lemma filter_fresh_id (l : list UserStory) (id : string) :
  ~ In id (map us_id l) ->
  filter (fun st => negb (String.eqb (us_id st) id)) l = l.
Proof.
  induction l as [| st l IH]; intros Hfresh; simpl; [reflexivity |].
  simpl in Hfresh. destruct (String.eqb_spec (us_id st) id) as [E | E].
  - exfalso. apply Hfresh. now left.
  - simpl. f_equal. apply IH. intros H. apply Hfresh. now right.
Qed.

(** X6: [addUserStory] does nothing when no user is signed in; with a
    signed-in user it only shows the required-fields message (no insert)
    when the title or the number is blank after trimming or the date is
    empty; otherwise it inserts one row owned by the signed-in user with
    no changes, and on success appends that row at the end of the table and
    of the cache, while on failure it shows an error and changes neither. *)
Theorem addUserStory_outcomes (fails : bool)
  (newId num tit desc dt : string) (s : State) :
  (currentUser s = None -> addUserStory fails newId num tit desc dt s = s) /\
  (forall uid, currentUser s = Some uid ->
     (trim tit = "" \/ dt = "" \/ trim num = "") ->
     addUserStory fails newId num tit desc dt s =
       setErrorMessage "Please fill in all required fields for the new user story." s) /\
  (forall uid, currentUser s = Some uid ->
     trim tit <> "" -> dt <> "" -> trim num <> "" ->
     let row := {| us_id := newId; userId := uid; number := num; title := tit;
                   description := desc; us_date := dt; changes := [] |} in
     let s' := addUserStory fails newId num tit desc dt s in
     remoteCalls s' = remoteCalls s ++ [RInsertStory] /\
     (fails = false -> db s' = db s ++ [row] /\ userStories s' = userStories s ++ [row]) /\
     (fails = true -> db s' = db s /\ userStories s' = userStories s /\
                      errorMessage s' = "Error adding user story")).
Proof.
  split; [| split].
  - intros Hu. unfold addUserStory. now rewrite Hu.
  - intros uid Hu Hblank. unfold addUserStory. rewrite Hu.
    destruct Hblank as [H | [H | H]]; rewrite H; simpl;
      [reflexivity | rewrite orb_true_r; reflexivity | rewrite orb_true_r; reflexivity].
  - intros uid Hu Ht Hd Hn row s'. subst s'. unfold addUserStory. rewrite Hu.
    apply String.eqb_neq in Ht, Hd, Hn. rewrite Ht, Hd, Hn. simpl.
    destruct fails; simpl.
    + split; [reflexivity |]. split; [discriminate | auto].
    + split; [reflexivity |]. split; [auto | discriminate].
Qed.

Lemma addUserStory_outcomes_witness :
  let s := setCurrentUser (Some "u1") (initState []) in
  addUserStory false "s9" "US-9" "   " "" "2024-01-01" s =
    setErrorMessage "Please fill in all required fields for the new user story." s.
Proof.
  intros s.
  apply (proj1 (proj2 (addUserStory_outcomes false "s9" "US-9" "   " "" "2024-01-01" s))
           "u1" eq_refl).
  left. reflexivity.
Defined.

(** X7: a successful [addUserStory] followed by a successful
    [removeUserStory] of the new row's id, an id no stored or cached story
    had, gives back the table and the cache of before. *)
Theorem addUserStory_removeUserStory_roundtrip (uid newId num tit desc dt : string)
  (s : State) (Hu : currentUser s = Some uid)
  (Ht : trim tit <> "") (Hd : dt <> "") (Hn : trim num <> "")
  (Hfresh_db : ~ In newId (map us_id (db s)))
  (Hfresh_cache : ~ In newId (map us_id (userStories s))) :
  let s2 := removeUserStory false newId (addUserStory false newId num tit desc dt s) in
  db s2 = db s /\ userStories s2 = userStories s.
Proof.
  intros s2.
  destruct (proj2 (proj2 (addUserStory_outcomes false newId num tit desc dt s))
              uid Hu Ht Hd Hn) as [_ [Hok _]].
  destruct (Hok eq_refl) as [Hdb Hus].
  subst s2. unfold removeUserStory. simpl. rewrite Hdb, Hus.
  rewrite !filter_app. simpl. rewrite String.eqb_refl. simpl.
  rewrite !app_nil_r, !filter_fresh_id by assumption. split; reflexivity.
Qed.

Lemma addUserStory_removeUserStory_roundtrip_witness :
  let s := setCurrentUser (Some "u1") (initState [sampleStory "s1" "US-1"]) in
  db (removeUserStory false "s2" (addUserStory false "s2" "US-2" "Login" "" "2024-01-03" s))
    = [sampleStory "s1" "US-1"].
Proof.
  intros s.
  apply (addUserStory_removeUserStory_roundtrip "u1" "s2" "US-2" "Login" "" "2024-01-03"
           s eq_refl); try discriminate.
  - simpl. intros [H | []]. discriminate.
  - intros [].
Defined.

(** ** Expanded stories *)

Lemma existsb_eqb_In (x : string) (l : list string) :
  existsb (String.eqb x) l = true <-> In x l.
Proof.
  rewrite existsb_exists. split.
  - intros [y [Hin E]]. apply String.eqb_eq in E. now subst.
  - intros Hin. exists x. split; [exact Hin | apply String.eqb_refl].
Qed.

(** X8: [toggleStoryExpansion prev id] expands [id] exactly when it was
    collapsed and leaves every other id as it was; it never lists an id
    twice when [prev] did not; toggling a collapsed story twice gives back
    [prev].  [removeUserStory]'s update of the expanded list drops the
    removed id and keeps the others. *)
Theorem toggleStoryExpansion_spec (prev : list string) (storyId : string) :
  (In storyId (toggleStoryExpansion prev storyId) <-> ~ In storyId prev) /\
  (forall x, x <> storyId ->
     In x (toggleStoryExpansion prev storyId) <-> In x prev) /\
  (NoDup prev -> NoDup (toggleStoryExpansion prev storyId)) /\
  (~ In storyId prev ->
     toggleStoryExpansion (toggleStoryExpansion prev storyId) storyId = prev) /\
  (forall x, In x (collapseRemovedStory prev storyId) <-> In x prev /\ x <> storyId).
Proof.
  unfold toggleStoryExpansion.
  destruct (existsb (String.eqb storyId) prev) eqn:E.
  - apply existsb_eqb_In in E.
    split; [| split; [| split; [| split]]].
    + rewrite filter_In, negb_true_iff, String.eqb_refl. split; [intros [_ H]; discriminate | tauto].
    + intros x Hx. rewrite filter_In, negb_true_iff, String.eqb_neq. tauto.
    + apply NoDup_filter.
    + contradiction.
    + intros x. unfold collapseRemovedStory. rewrite filter_In, negb_true_iff, String.eqb_neq. tauto.
  - assert (Hnot : ~ In storyId prev) by (intros H; apply existsb_eqb_In in H; congruence).
    split; [| split; [| split; [| split]]].
    + split; [intros _; exact Hnot | intros _; apply in_or_app; right; now left].
    + intros x Hx. rewrite in_app_iff. simpl. split; [intros [H | [H | []]]; [exact H | congruence] | tauto].
    + intros Hnd. apply NoDup_app; [exact Hnd | repeat constructor; intros [] |].
      intros a Ha [<- | []]. contradiction.
    + intros _. replace (existsb (String.eqb storyId) (prev ++ [storyId])) with true
        by (symmetry; apply existsb_eqb_In, in_or_app; right; now left).
      rewrite filter_app. simpl. rewrite String.eqb_refl, app_nil_r. simpl.
      clear E. induction prev as [| y prev IH]; simpl; [reflexivity |].
      destruct (String.eqb_spec y storyId) as [-> | Hy].
      * exfalso. apply Hnot. now left.
      * simpl. f_equal. apply IH. intros H. apply Hnot. now right.
    + intros x. unfold collapseRemovedStory. rewrite filter_In, negb_true_iff, String.eqb_neq. tauto.
Qed.

(** ** Pages and page buttons *)

Lemma firstn_add_split (A : Type) (n1 n2 : nat) (x : list A) :
  firstn (n1 + n2) x = firstn n1 x ++ firstn n2 (skipn n1 x).
Proof.
  revert x; induction n1 as [| n1 IH]; intros x; [reflexivity |].
  destruct x as [| a x]; simpl; [now rewrite firstn_nil |]. now rewrite IH.
Qed.

Lemma pages_concat (A : Type) (l : list A) (k m a : nat) :
  concat (map (fun i => firstn k (skipn (i * k) l)) (seq a m))
  = firstn (m * k) (skipn (a * k) l).
Proof.
  revert a; induction m as [| m IH]; intros a; [reflexivity |].
  simpl (seq a (S m)). simpl map. simpl concat. rewrite IH.
  simpl (S m * k). rewrite firstn_add_split, skipn_skipn.
  replace (S a * k) with (k + a * k) by reflexivity. reflexivity.
Qed.

(** X9: with a page size [perPage > 0], the pages numbered [1] to
    [pageCount], read in order, give back the whole filtered list; every
    page a button links to is non-empty; and when the list fits in one
    page there is no button and page 1 shows the whole list. *)
Theorem pages_cover_filtered_list (l : list UserStory) (perPage : nat)
  (Hps : 0 < perPage) :
  concat (map (fun p => currentStories l p perPage)
              (seq 1 (pageCount (length l) perPage))) = l /\
  (forall p, In p (pageButtons (length l) perPage) -> currentStories l p perPage <> []) /\
  (length l <= perPage ->
     pageButtons (length l) perPage = [] /\ currentStories l 1 perPage = l).
Proof.
  destruct (pageCount_ceil (length l) perPage Hps) as [Hup Hleast].
  split; [| split].
  - rewrite (map_ext_in _ (fun p => firstn perPage (skipn ((p - 1) * perPage) l))).
    2:{ intros p Hp. apply in_seq in Hp. apply currentStories_slice. lia. }
    rewrite <- seq_shift, map_map.
    rewrite (map_ext _ (fun i => firstn perPage (skipn (i * perPage) l)))
      by (intros i; now rewrite Nat.sub_succ, Nat.sub_0_r).
    rewrite pages_concat. simpl. apply firstn_all2. exact Hup.
  - intros p Hp. unfold pageButtons in Hp.
    destruct (Nat.ltb perPage (length l)); [| destruct Hp].
    apply in_seq in Hp.
    assert (Hlt : (p - 1) * perPage < length l).
    { destruct (Nat.le_gt_cases (length l) ((p - 1) * perPage)) as [Hge | Hlt];
        [| exact Hlt].
      specialize (Hleast (p - 1) Hge). lia. }
    rewrite currentStories_slice by lia. intros Hnil.
    apply (f_equal (@length UserStory)) in Hnil.
    rewrite length_firstn, length_skipn in Hnil. simpl in Hnil. lia.
  - intros Hfit. split.
    + unfold pageButtons. destruct (Nat.ltb_spec perPage (length l)); [lia | reflexivity].
    + rewrite currentStories_slice by lia. simpl. apply firstn_all2. exact Hfit.
Qed.

Lemma pages_cover_filtered_list_witness :
  concat (map (fun p => currentStories sampleStories p storiesPerPage)
              (seq 1 (pageCount (length sampleStories) storiesPerPage))) = sampleStories /\
  pageButtons (length sampleStories) storiesPerPage = [1; 2].
Proof.
  split; [| reflexivity].
  exact (proj1 (pages_cover_filtered_list sampleStories storiesPerPage
                  ltac:(unfold storiesPerPage; lia))).
Defined.

